(** * deepseek-chat: the content segmenter and the search-augmented submit

    A shallow embedding of [src/app/page.tsx]: the helper
    [parseMessageContent] that separates the reasoning region of a streamed
    assistant message from its final answer, and the form handler
    [handleSubmit] that runs a web search, folds the results into a system
    message and triggers the chat request.

    JavaScript strings are sequences of UTF-16 code units, so a string is a
    list of code units here; the string methods the page calls
    ([includes], [split], [join], [replace], [trim], [slice]) are written
    out after their ECMAScript definitions. *)

From Stdlib Require Import String Ascii Decimal DecimalN.
From Stdlib Require Import List Arith NArith ZArith Lia Bool.
From Equations Require Import Equations.
From Equations.Prop Require Import Logic.
Import ListNotations.

(** ** JavaScript strings *)

Module JS.

(** A UTF-16 code unit, and a string of them. *)
#[local] Set Warnings "-notation-for-abbreviation".
Notation unit16 := N (only parsing).
Notation jsstring := (list N) (only parsing).

(** String literals of the source are ASCII; [lit] gives their code units. *)
Fixpoint lit (s : string) : jsstring :=
  match s with
  | EmptyString => []
  | String c s' => N_of_ascii c :: lit s'
  end.

(** ToBoolean on a string: the empty string is the only falsy one. *)
Definition truthy (s : jsstring) : bool :=
  match s with [] => false | _ :: _ => true end.

(** [s.startsWith(p)], the test made at each index by the search methods. *)
Fixpoint starts_with (p s : jsstring) : bool :=
  match p, s with
  | [], _ => true
  | _ :: _, [] => false
  | a :: p', b :: s' => N.eqb a b && starts_with p' s'
  end.

(** [s.indexOf(p)]: the smallest index at which [p] occurs, if any. *)
Fixpoint indexOf (p s : jsstring) : option nat :=
  if starts_with p s then Some 0
  else match s with
       | [] => None
       | _ :: s' => option_map S (indexOf p s')
       end.

(** [s.includes(p)]. *)
Definition includes (p s : jsstring) : bool :=
  match indexOf p s with Some _ => true | None => false end.

(** [s.substring(a)] and [s.substring(0, b)] for in-range indices. *)
Definition substring_from (a : nat) (s : jsstring) : jsstring := skipn a s.
Definition substring_to (b : nat) (s : jsstring) : jsstring := firstn b s.

(** [s.split(sep)] with a string separator (ECMAScript 22.1.3.23): an empty
    separator splits into single code units; otherwise the string is cut at
    each successive occurrence of the separator, searching on from the end
    of the previous one, and the remainder is the last piece. *)
Equations? split (sep : jsstring) (s : jsstring) : list jsstring
  by wf (length s) lt :=
  split [] s := map (fun c => [c]) s;
  split (c :: sep') s with inspect (indexOf (c :: sep') s) := {
    | exist _ None _ => [s]
    | exist _ (Some j) e =>
        substring_to j s
          :: split (c :: sep') (substring_from (j + length (c :: sep')) s) }.
Proof.
  (* the search resumes strictly after a non-empty match *)
  assert (fits : forall p t, starts_with p t = true -> length p <= length t).
  { induction p as [|a p IH]; intros [|b t]; simpl; try lia; try discriminate.
    intros H. apply andb_true_iff in H as [_ H]. apply IH in H. lia. }
  assert (bound : forall p t k, indexOf p t = Some k -> k + length p <= length t).
  { intros p t. induction t as [|b t IH]; intros k; simpl.
    - destruct p; simpl; [intros [= <-]; simpl; lia | discriminate].
    - destruct (starts_with p (b :: t)) eqn:E.
      + intros [= <-]. apply fits in E. simpl in *. lia.
      + destruct (indexOf p t) as [i|]; simpl; [|discriminate].
        intros [= <-]. specialize (IH _ eq_refl). lia. }
  unfold substring_from. rewrite length_skipn.
  apply bound in e. simpl in *. lia.
Qed.

(** [a.join(sep)] on an array of strings. *)
Fixpoint join (sep : jsstring) (a : list jsstring) : jsstring :=
  match a with
  | [] => []
  | [x] => x
  | x :: rest => x ++ sep ++ join sep rest
  end.

(** [s.replace(pat, repl)] with a string pattern: only the first occurrence
    is replaced.  The replacement is taken literally, which is what
    GetSubstitution does for a text without dollar signs. *)
Definition replace (pat repl s : jsstring) : jsstring :=
  match indexOf pat s with
  | None => s
  | Some j => substring_to j s ++ repl ++ substring_from (j + length pat) s
  end.

(** WhiteSpace and LineTerminator code points, the set [trim] removes:
    TAB, LF, VT, FF, CR, SP, NBSP, the other space separators (Zs),
    LS, PS and ZWNBSP. *)
Definition is_white (c : unit16) : bool :=
  ((9 <=? c) && (c <=? 13) || (c =? 32) || (c =? 160) || (c =? 5760)
   || (8192 <=? c) && (c <=? 8202) || (c =? 8232) || (c =? 8233)
   || (c =? 8239) || (c =? 8287) || (c =? 12288) || (c =? 65279))%N.

Fixpoint trimStart (s : jsstring) : jsstring :=
  match s with
  | [] => []
  | c :: s' => if is_white c then trimStart s' else s
  end.

Definition trimEnd (s : jsstring) : jsstring := rev (trimStart (rev s)).

(** [s.trim()]. *)
Definition trim (s : jsstring) : jsstring := trimEnd (trimStart s).

(** [a.slice(start)] on an array, with a relative start index. *)
Definition slice {A} (start : Z) (a : list A) : list A :=
  let len := Z.of_nat (length a) in
  let k := if (start <? 0)%Z then Z.max (len + start) 0 else Z.min start len in
  skipn (Z.to_nat k) a.

(** Number::toString of a non-negative integer, in decimal. *)
Fixpoint digits (d : Decimal.uint) : jsstring :=
  match d with
  | Nil => []
  | D0 d => 48%N :: digits d
  | D1 d => 49%N :: digits d
  | D2 d => 50%N :: digits d
  | D3 d => 51%N :: digits d
  | D4 d => 52%N :: digits d
  | D5 d => 53%N :: digits d
  | D6 d => 54%N :: digits d
  | D7 d => 55%N :: digits d
  | D8 d => 56%N :: digits d
  | D9 d => 57%N :: digits d
  end.

Definition toString (n : N) : jsstring := digits (N.to_uint n).

End JS.

Import JS.

(** ** The content segmenter *)

Record SegmentedContent := {
  thinking : jsstring;
  finalResponse : jsstring;
  isComplete : bool
}.

Definition think_open : jsstring := lit "<think>".
Definition think_close : jsstring := lit "</think>".

(** [parseMessageContent] of [src/app/page.tsx].  The array pattern
    [[thinking, ...rest]] binds the first piece and the remaining pieces;
    [split] with a non-empty separator never returns an empty array
    (lemma [split_nonempty]), so the default of [hd] is never used. *)
Definition parseMessageContent (content : jsstring) : SegmentedContent :=
  if includes think_close content then
    let pieces := split think_close content in
    let thinking := hd [] pieces in
    let rest := tl pieces in
    {| thinking := trim (replace think_open [] thinking);
       finalResponse := trim (join think_close rest);
       isComplete := true |}
  else if includes think_open content then
    {| thinking := trim (replace think_open [] content);
       finalResponse := [];
       isComplete := false |}
  else
    {| thinking := [];
       finalResponse := content;
       isComplete := true |}.

(** ** What the specification's words mean

    These relations are written from the specification, independently of
    the string methods above, so that the theorems compare the two. *)

Module Spec.

(** The text [p] occurs somewhere in [s]. *)
Definition contains (p s : jsstring) : Prop :=
  exists a b, s = a ++ p ++ b.

(** [pre] and [post] are what lies before and after the first occurrence
    of [p] in [s]. *)
Definition first_split (p s pre post : jsstring) : Prop :=
  s = pre ++ p ++ post /\
  forall a b, s = a ++ p ++ b -> length pre <= length a.

(** [t] is [s] with the marker [p] stripped if present. *)
Definition stripped_of (p s t : jsstring) : Prop :=
  (exists a b, first_split p s a b /\ t = a ++ b)
  \/ (~ contains p s /\ t = s).

(** [t] neither starts nor ends with a whitespace code unit. *)
Definition tight (t : jsstring) : Prop :=
  (forall c u, t = c :: u -> is_white c = false) /\
  (forall c u, t = u ++ [c] -> is_white c = false).

(** [t] is [s] trimmed of surrounding whitespace. *)
Definition trimmed_of (s t : jsstring) : Prop :=
  exists l r, s = l ++ t ++ r /\
    forallb is_white l = true /\ forallb is_white r = true /\ tight t.

End Spec.

Import Spec.

(** ** The query history

    The page keeps [previousQueries] in a state hook.  The specification
    calls the updater [append] and the read [window]; in the source they are
    [prev => [...prev, input].slice(-3)] and [previousQueries.slice(-3)]. *)

Module History.

Definition append (prev : list jsstring) (input : jsstring) : list jsstring :=
  slice (-3) (prev ++ [input]).

Definition window (previousQueries : list jsstring) : list jsstring :=
  slice (-3) previousQueries.

(** The histories the page can hold: the hook starts empty and is only ever
    written through the updater. *)
Inductive reachable : list jsstring -> Prop :=
| reach_init : reachable []
| reach_append h q : reachable h -> reachable (append h q).

End History.

(** ** The page: state, collaborators and the submit handler *)

Module Page.

Inductive Role := user | assistant | system.

Record Message := {
  id : jsstring;
  role : Role;
  content : jsstring
}.

Record SearchResult := {
  title : jsstring;
  url : jsstring;
  text : jsstring;
  author : option jsstring;
  publishedDate : option jsstring
}.

(** ToBoolean on an optional string field: absent and empty are falsy. *)
Definition present (f : option jsstring) : bool :=
  match f with Some s => truthy s | None => false end.

(** The template substitution of a field known to be present. *)
Definition field (f : option jsstring) : jsstring :=
  match f with Some s => s | None => [] end.

Definition nl : jsstring := [10%N].

(** [results.map((r, i) => ...)]: the callback receives the array index. *)
Fixpoint map_index {A B} (f : A -> nat -> B) (i : nat) (a : list A) : list B :=
  match a with
  | [] => []
  | x :: rest => f x i :: map_index f (S i) rest
  end.

(** The template of one result inside [searchContext]. *)
Definition sourceBlock (r : SearchResult) (i : nat) : jsstring :=
  lit "Source [" ++ toString (N.of_nat (i + 1)) ++ lit "]:" ++ nl
  ++ lit "Title: " ++ title r ++ nl
  ++ lit "URL: " ++ url r ++ nl
  ++ (if present (author r) then lit "Author: " ++ field (author r) ++ nl else [])
  ++ (if present (publishedDate r)
      then lit "Date: " ++ field (publishedDate r) ++ nl else [])
  ++ lit "Content: " ++ text r ++ nl ++ lit "---".

Definition instructions : jsstring :=
  lit "Instructions: Based on the above search results, please provide an answer to the user's query. When referencing information, cite the source number in brackets like [1], [2], etc. Use simple english. Use simple words.".

(** The [searchContext] constant of [handleSubmit]. *)
Definition searchContext (results : list SearchResult) : jsstring :=
  if 0 <? length results then
    lit "Web Search Results:" ++ nl ++ nl
    ++ join (nl ++ nl) (map_index sourceBlock 0 results)
    ++ nl ++ nl ++ instructions
  else [].

(** The hooks of the component ([useState] and the store of [useChat]). *)
Record PageState := {
  isSearching : bool;
  searchResults : list SearchResult;
  searchError : option jsstring;
  previousQueries : list jsstring;
  messages : list Message;
  input : jsstring
}.

(** A thrown value: an [Error] object with its message, or something else. *)
Inductive Thrown := ErrorObject (message : jsstring) | NonError.

(** What the search endpoint does with one request: the [fetch] promise
    rejects, or resolves to a response whose [ok] flag is set or not and
    whose [json()] resolves to an object with [results], or rejects. *)
Inductive JsonOutcome :=
| JsonResults (results : list SearchResult)
| JsonRejects (err : Thrown).

Inductive FetchOutcome :=
| FetchRejects (err : Thrown)
| FetchResponse (ok : bool) (body : JsonOutcome).

Record Env := {
  exawebsearch : jsstring -> list jsstring -> FetchOutcome;
  dateNow : N
}.

(** The calls that leave the component, in order.  [ChatSubmit] is
    [handleChatSubmit(e)] of [useChat], which issues the model request over
    the conversation the hook holds when it is called. *)
Inductive Effect :=
| PreventDefault
| SearchRequest (query : jsstring) (previousQueries : list jsstring)
| ChatSubmit (conversation : list Message) (input : jsstring)
| ConsoleError (err : Thrown).

Record World := {
  state : PageState;
  effects : list Effect
}.

(** Computations that update the hooks, log calls and may throw. *)
Inductive Completion (A : Type) :=
| Returned (a : A)
| Threw (err : Thrown).
Arguments Returned {A} a.
Arguments Threw {A} err.

Definition M (A : Type) := World -> Completion A * World.

Definition ret {A} (a : A) : M A := fun w => (Returned a, w).

Definition bind {A B} (c : M A) (k : A -> M B) : M B :=
  fun w => match c w with
           | (Returned a, w') => k a w'
           | (Threw err, w') => (Threw err, w')
           end.

Definition throw {A} (err : Thrown) : M A := fun w => (Threw err, w).

(** [try { body } catch (err) { handler } finally { fin }]. *)
Definition try_catch_finally (body : M unit) (handler : Thrown -> M unit)
    (fin : M unit) : M unit :=
  fun w =>
    let (r, w1) := match body w with
                   | (Returned a, w') => (Returned a, w')
                   | (Threw err, w') => handler err w'
                   end in
    match fin w1 with
    | (Returned _, w2) => (r, w2)
    | (Threw err, w2) => (Threw err, w2)
    end.

Declare Scope page_scope.
Delimit Scope page_scope with page.
Notation "x <- c ;; k" := (bind c (fun x => k))
  (at level 61, c at next level, right associativity) : page_scope.
Notation "c ;; k" := (bind c (fun _ => k))
  (at level 61, right associativity) : page_scope.
Open Scope page_scope.

Definition modify (f : PageState -> PageState) : M unit :=
  fun w => (Returned tt, {| state := f (state w); effects := effects w |}).

Definition perform (e : Effect) : M unit :=
  fun w => (Returned tt, {| state := state w; effects := effects w ++ [e] |}).

Definition setIsSearching (b : bool) : M unit :=
  modify (fun s => {| isSearching := b; searchResults := searchResults s;
                      searchError := searchError s;
                      previousQueries := previousQueries s;
                      messages := messages s; input := input s |}).

Definition setSearchResults (r : list SearchResult) : M unit :=
  modify (fun s => {| isSearching := isSearching s; searchResults := r;
                      searchError := searchError s;
                      previousQueries := previousQueries s;
                      messages := messages s; input := input s |}).

Definition setSearchError (e : option jsstring) : M unit :=
  modify (fun s => {| isSearching := isSearching s;
                      searchResults := searchResults s; searchError := e;
                      previousQueries := previousQueries s;
                      messages := messages s; input := input s |}).

Definition setPreviousQueries (f : list jsstring -> list jsstring) : M unit :=
  modify (fun s => {| isSearching := isSearching s;
                      searchResults := searchResults s;
                      searchError := searchError s;
                      previousQueries := f (previousQueries s);
                      messages := messages s; input := input s |}).

Definition setMessages (m : list Message) : M unit :=
  modify (fun s => {| isSearching := isSearching s;
                      searchResults := searchResults s;
                      searchError := searchError s;
                      previousQueries := previousQueries s;
                      messages := m; input := input s |}).

Definition handleChatSubmit : M unit :=
  fun w => perform (ChatSubmit (messages (state w)) (input (state w))) w.

(** [await fetch('/api/exawebsearch', ...)] with the body's two fields. *)
Definition fetch (env : Env) (query : jsstring) (prev : list jsstring)
  : M (bool * JsonOutcome) :=
  perform (SearchRequest query prev) ;;
  match exawebsearch env query prev with
  | FetchRejects err => throw err
  | FetchResponse ok body => ret (ok, body)
  end.

(** [const { results } = await searchResponse.json()]. *)
Definition json (body : JsonOutcome) : M (list SearchResult) :=
  match body with
  | JsonResults results => ret results
  | JsonRejects err => throw err
  end.

(** [err instanceof Error ? err.message : 'Search failed']. *)
Definition error_message (err : Thrown) : jsstring :=
  match err with
  | ErrorObject m => m
  | NonError => lit "Search failed"
  end.

(** [handleSubmit] of [src/app/page.tsx].  [render] is the render whose
    closure the handler runs in: [input], [messages] and [previousQueries]
    are read from it, while the setters act on the current hooks. *)
Definition handleSubmitIn (env : Env) (render : PageState) : M unit :=
  perform PreventDefault ;;
  if negb (truthy (trim (input render))) then ret tt else
  setIsSearching true ;;
  setSearchResults [] ;;
  setSearchError None ;;
  try_catch_finally
    (searchResponse <- fetch env (input render)
                         (History.window (previousQueries render)) ;;
     (if negb (fst searchResponse)
      then throw (ErrorObject (lit "Search failed")) else ret tt) ;;
     results <- json (snd searchResponse) ;;
     setSearchResults results ;;
     let searchContext := searchContext results in
     (if truthy searchContext then
        let newMessages :=
          messages render
          ++ [{| id := toString (dateNow env); role := system;
                 content := searchContext |}] in
        setMessages newMessages ;;
        handleChatSubmit
      else handleChatSubmit) ;;
     setPreviousQueries (fun prev => History.append prev (input render)))
    (fun err =>
       setSearchError (Some (error_message err)) ;;
       perform (ConsoleError err))
    (setIsSearching false).

Definition handleSubmit (env : Env) : M unit :=
  fun w => handleSubmitIn env (state w) w.

(** One turn: the handler run on the current hooks with an empty log. *)
Definition submit (env : Env) (s : PageState) : Completion unit * World :=
  handleSubmit env {| state := s; effects := [] |}.

(** The search request of the turn fails with [err]: the transport rejects
    with it, or the response is not a success and the handler throws. *)
Definition search_fails (env : Env) (s : PageState) (err : Thrown) : Prop :=
  exawebsearch env (input s) (History.window (previousQueries s))
  = FetchRejects err
  \/ exists body,
       exawebsearch env (input s) (History.window (previousQueries s))
       = FetchResponse false body
       /\ err = ErrorObject (lit "Search failed").

(** The search request of the turn succeeds with [results]. *)
Definition search_returns (env : Env) (s : PageState)
    (results : list SearchResult) : Prop :=
  exawebsearch env (input s) (History.window (previousQueries s))
  = FetchResponse true (JsonResults results).

End Page.

(** ** What the page renders

    The conditions and texts of the JSX that [Page] returns: the transcript
    filter, the two regions of an assistant message, the numbered result
    list under a user message, the error banner and the submit button. *)

Module Render.

Import Page.




(** [(thinking || !isComplete) && ...]: the reasoning region is drawn. *)
Definition showThinking (content : jsstring) : bool :=
  let r := parseMessageContent content in
  truthy (thinking r) || negb (isComplete r).

(** [isComplete && finalResponse && ...]: the answer region is drawn. *)
Definition showFinal (content : jsstring) : bool :=
  let r := parseMessageContent content in
  isComplete r && truthy (finalResponse r).


(** The text of one entry of the result list: [[{idx + 1}] {result.title}]. *)
Definition resultEntry (result : SearchResult) (idx : nat) : jsstring :=
  lit "[" ++ toString (N.of_nat (idx + 1)) ++ lit "] " ++ title result.

(** [searchResults.map((result, idx) => ...)]. *)
Definition resultEntries (results : list SearchResult) : list jsstring :=
  map_index resultEntry 0 results.


(** [disabled={!input.trim() || isSearching}] on the submit button. *)
Definition submitDisabled (st : PageState) : bool :=
  negb (truthy (trim (input st))) || isSearching st.

End Render.

(** ** The two ways a turn with a non-blank input ends

    The hooks and the calls logged when the search fails with [err], and
    when it succeeds with [results]. *)

Module Turn.

Import Page.

Definition failed (s : PageState) (err : Thrown) : World :=
  {| state := {| isSearching := false; searchResults := [];
                 searchError := Some (error_message err);
                 previousQueries := previousQueries s;
                 messages := messages s; input := input s |};
     effects := [PreventDefault;
                 SearchRequest (input s) (History.window (previousQueries s));
                 ConsoleError err] |}.

(** The system message of the turn. *)
Definition contextMessage (env : Env) (results : list SearchResult)
  : Message :=
  {| id := toString (dateNow env); role := system;
     content := searchContext results |}.

(** The conversation the model request is made over. *)
Definition conversation (env : Env) (s : PageState)
    (results : list SearchResult) : list Message :=
  if truthy (searchContext results)
  then messages s ++ [contextMessage env results]
  else messages s.

Definition succeeded (env : Env) (s : PageState)
    (results : list SearchResult) : World :=
  {| state := {| isSearching := false; searchResults := results;
                 searchError := None;
                 previousQueries :=
                   History.append (previousQueries s) (input s);
                 messages := conversation env s results;
                 input := input s |};
     effects := [PreventDefault;
                 SearchRequest (input s) (History.window (previousQueries s));
                 ChatSubmit (conversation env s results) (input s)] |}.

(** The search endpoint answers the request of the turn with a success. *)
Definition search_ok (env : Env) (s : PageState) : Prop :=
  exists results, search_returns env s results.

End Turn.

(** * Properties *)

(** ** Searching a string *)

Section Search.

Implicit Types p s t : jsstring.

Lemma starts_with_decomp p s :
  starts_with p s = true <-> exists t, s = p ++ t.
Proof.
  revert s; induction p as [|a p IH]; intros s; simpl.
  - split; eauto.
  - destruct s as [|b s].
    + split; [discriminate | intros [t Ht]; discriminate].
    + rewrite andb_true_iff, N.eqb_eq, IH. split.
      * intros [-> [t ->]]. eauto.
      * intros [t [= -> ->]]. eauto.
Qed.

Lemma indexOf_bound p s k : indexOf p s = Some k -> k + length p <= length s.
Proof.
  revert k; induction s as [|c s IH]; intros k; simpl.
  - destruct p; simpl; [intros [= <-]; simpl; lia | discriminate].
  - destruct (starts_with p (c :: s)) eqn:E.
    + intros [= <-]. apply starts_with_decomp in E as [t E].
      apply (f_equal (@length _)) in E. rewrite length_app in E.
      simpl in *. lia.
    + destruct (indexOf p s) as [j|]; simpl; [|discriminate].
      intros [= <-]. specialize (IH _ eq_refl). lia.
Qed.

(** At the index found, the string is the text before, the pattern, and the
    text after. *)
Lemma indexOf_cut p s k :
  indexOf p s = Some k ->
  s = firstn k s ++ p ++ skipn (k + length p) s.
Proof.
  revert k; induction s as [|c s IH]; intros k.
  - simpl. destruct p; simpl; [intros [= <-]; reflexivity | discriminate].
  - cbn [indexOf]. destruct (starts_with p (c :: s)) eqn:E.
    + intros [= <-]. apply starts_with_decomp in E as [t E].
      rewrite E. simpl. rewrite skipn_app, skipn_all, Nat.sub_diag.
      reflexivity.
    + destruct (indexOf p s) as [j|]; simpl option_map; [|discriminate].
      intros [= <-]. simpl. f_equal. apply IH. reflexivity.
Qed.

(** No occurrence starts before the index found. *)
Lemma indexOf_least p s k :
  indexOf p s = Some k -> forall a b, s = a ++ p ++ b -> k <= length a.
Proof.
  revert k; induction s as [|c s IH]; intros k.
  - simpl. destruct p; simpl; [intros [= <-]; lia | discriminate].
  - cbn [indexOf]. destruct (starts_with p (c :: s)) eqn:E.
    + intros [= <-]. lia.
    + destruct (indexOf p s) as [j|]; simpl option_map; [|discriminate].
      intros [= <-] a b Hs. destruct a as [|x a].
      * simpl in Hs. assert (starts_with p (c :: s) = true)
          by (apply starts_with_decomp; eauto). congruence.
      * injection Hs as -> Hs. simpl. apply le_n_S. eapply IH; eauto.
Qed.

Lemma indexOf_none p s : indexOf p s = None -> ~ contains p s.
Proof.
  induction s as [|c s IH].
  - simpl. destruct p; simpl; [discriminate|].
    intros _ [a [b H]]. destruct a; discriminate.
  - cbn [indexOf]. destruct (starts_with p (c :: s)) eqn:E; [discriminate|].
    destruct (indexOf p s) as [j|]; simpl option_map; [discriminate|].
    intros _ [a [b Hs]]. destruct a as [|x a].
    + simpl in Hs. assert (starts_with p (c :: s) = true)
        by (apply starts_with_decomp; eauto). congruence.
    + injection Hs as -> Hs. apply IH; [reflexivity|]. exists a, b. exact Hs.
Qed.

Lemma indexOf_first_split p s k :
  indexOf p s = Some k ->
  first_split p s (firstn k s) (skipn (k + length p) s).
Proof.
  intros H. split.
  - apply indexOf_cut, H.
  - intros a b Hs. pose proof (indexOf_least _ _ _ H _ _ Hs).
    rewrite length_firstn. lia.
Qed.

(** [includes] decides occurrence. *)
Lemma includes_contains p s : includes p s = true <-> contains p s.
Proof.
  unfold includes. destruct (indexOf p s) as [k|] eqn:E.
  - split; [intros _ | reflexivity].
    exists (firstn k s), (skipn (k + length p) s). apply indexOf_cut, E.
  - split; [discriminate|]. intros H. exfalso. eapply indexOf_none; eauto.
Qed.

Lemma includes_false p s : includes p s = false <-> ~ contains p s.
Proof.
  rewrite <- includes_contains. destruct (includes p s); split; congruence.
Qed.

(** The first split of a string is unique. *)
Lemma first_split_unique p s a b a' b' :
  first_split p s a b -> first_split p s a' b' -> a = a' /\ b = b'.
Proof.
  intros [E1 L1] [E2 L2].
  pose proof (L1 _ _ E2). pose proof (L2 _ _ E1).
  assert (length a = length a') by lia.
  rewrite E1 in E2. apply app_eq_app in E2.
  destruct E2 as [l [[-> E]|[-> E]]]; rewrite length_app in *;
    destruct l; simpl in *; try lia;
    rewrite ?app_nil_r; apply app_inv_head in E; auto.
Qed.

End Search.

(** ** Splitting and rejoining *)

Section Splitting.

Implicit Types sep s : jsstring.

Lemma split_found c sep s k :
  indexOf (c :: sep) s = Some k ->
  split (c :: sep) s
  = firstn k s :: split (c :: sep) (skipn (k + length (c :: sep)) s).
Proof.
  intros H. rewrite split_equation_2.
  generalize (inspect (indexOf (c :: sep) s)). intros [[j|] e]; simpl.
  - assert (j = k) as -> by congruence. reflexivity.
  - congruence.
Qed.

Lemma split_missing c sep s :
  indexOf (c :: sep) s = None -> split (c :: sep) s = [s].
Proof.
  intros H. rewrite split_equation_2.
  generalize (inspect (indexOf (c :: sep) s)). intros [[j|] e]; simpl.
  - congruence.
  - reflexivity.
Qed.

(** With a non-empty separator the array of pieces is never empty. *)
Lemma split_nonempty c sep s : split (c :: sep) s <> [].
Proof.
  destruct (indexOf (c :: sep) s) as [k|] eqn:E.
  - rewrite (split_found _ _ _ _ E). discriminate.
  - rewrite (split_missing _ _ _ E). discriminate.
Qed.

Lemma join_cons sep x rest :
  rest <> [] -> join sep (x :: rest) = x ++ sep ++ join sep rest.
Proof. destruct rest; [congruence | reflexivity]. Qed.

(** Joining the pieces with the separator gives the string back. *)
Lemma join_split c sep s : join (c :: sep) (split (c :: sep) s) = s.
Proof.
  remember (length s) as n eqn:Hn. revert s Hn.
  induction n as [n IH] using lt_wf_ind. intros s Hn.
  destruct (indexOf (c :: sep) s) as [k|] eqn:E.
  - rewrite (split_found _ _ _ _ E).
    rewrite join_cons by apply split_nonempty.
    rewrite (IH (length (skipn (k + length (c :: sep)) s))); [| |reflexivity].
    + symmetry. apply indexOf_cut, E.
    + apply indexOf_bound in E. rewrite length_skipn. simpl in *. lia.
  - rewrite (split_missing _ _ _ E). reflexivity.
Qed.

End Splitting.

(** ** Trimming *)

Section Trimming.

Implicit Types s t : jsstring.

Lemma trimStart_spec s :
  exists l, s = l ++ trimStart s /\ forallb is_white l = true /\
            forall c u, trimStart s = c :: u -> is_white c = false.
Proof.
  induction s as [|c s (l & E & W & T)]; simpl.
  - exists []. repeat split; discriminate.
  - destruct (is_white c) eqn:Hc.
    + exists (c :: l). simpl. rewrite Hc, W. repeat split; auto.
      f_equal. exact E.
    + exists []. repeat split. intros ? ? [= <- _]. exact Hc.
Qed.

Lemma trimEnd_spec s :
  exists r, s = trimEnd s ++ r /\ forallb is_white r = true /\
            forall c u, trimEnd s = u ++ [c] -> is_white c = false.
Proof.
  unfold trimEnd. destruct (trimStart_spec (rev s)) as (l & E & W & T).
  exists (rev l). repeat split.
  - rewrite <- rev_app_distr, <- E, rev_involutive. reflexivity.
  - rewrite forallb_forall in *. intros x Hx. apply W, in_rev, Hx.
  - intros c u H. apply (T c (rev u)).
    rewrite <- (rev_involutive (trimStart (rev s))), H, rev_app_distr.
    reflexivity.
Qed.

(** [trim] removes exactly the surrounding whitespace. *)
Lemma trim_trimmed s : trimmed_of s (trim s).
Proof.
  unfold trim. destruct (trimStart_spec s) as (l & E & W & T).
  destruct (trimEnd_spec (trimStart s)) as (r & E' & W' & T').
  exists l, r. repeat split; auto.
  - rewrite <- E'. exact E.
  - intros c u H. destruct u as [|d u].
    + apply (T' c []). exact H.
    + rewrite H in E'. simpl in E'. eapply T. exact E'.
Qed.

(** A string that is already tight is its own trimming. *)
Lemma tight_trimmed t : tight t -> trimmed_of t t.
Proof.
  intros H. exists [], []. rewrite app_nil_r. auto.
Qed.

Lemma trimStart_white l u :
  forallb is_white l = true -> trimStart (l ++ u) = trimStart u.
Proof.
  induction l as [|c l IH]; simpl; [reflexivity|].
  intros H. apply andb_true_iff in H as [-> H]. auto.
Qed.

Lemma trimStart_all_white l : forallb is_white l = true -> trimStart l = [].
Proof.
  intros H. rewrite <- (app_nil_r l). rewrite trimStart_white; auto.
Qed.

Lemma trimStart_fixed u :
  (forall c v, u = c :: v -> is_white c = false) -> trimStart u = u.
Proof.
  destruct u as [|c v]; simpl; [reflexivity|].
  intros H. rewrite (H c v eq_refl). reflexivity.
Qed.

Lemma forallb_rev (f : unit16 -> bool) l :
  forallb f l = true -> forallb f (rev l) = true.
Proof.
  rewrite !forallb_forall. intros H x Hx. apply H, in_rev, Hx.
Qed.

(** Whatever satisfies the specification's description of trimming is what
    [trim] computes. *)
Lemma trimmed_is_trim s t : trimmed_of s t -> trim s = t.
Proof.
  intros (l & r & -> & Wl & Wr & [Th Tl]). unfold trim.
  rewrite trimStart_white by assumption.
  destruct t as [|c t].
  - simpl. rewrite trimStart_all_white by assumption. reflexivity.
  - rewrite trimStart_fixed by (intros ? ? [= <- _]; eapply Th; reflexivity).
    unfold trimEnd. rewrite rev_app_distr.
    rewrite trimStart_white by (apply forallb_rev; assumption).
    rewrite trimStart_fixed; [apply rev_involutive|].
    intros x v H. apply (Tl x (rev v)).
    rewrite <- (rev_involutive (c :: t)), H. reflexivity.
Qed.

Lemma trimmed_unique s t t' : trimmed_of s t -> trimmed_of s t' -> t = t'.
Proof.
  intros H H'. apply trimmed_is_trim in H, H'. congruence.
Qed.

End Trimming.

(** ** Occurrences survive trimming *)

Section Occurrences.

Implicit Types p s : jsstring.

Lemma contains_trimStart p s c u :
  p = c :: u -> is_white c = false ->
  contains p s -> contains p (trimStart s).
Proof.
  intros -> Hc. induction s as [|d s IH]; intros [a [b H]].
  - destruct a; discriminate.
  - simpl. destruct (is_white d) eqn:Hd.
    + destruct a as [|x a].
      * injection H as -> _. congruence.
      * injection H as _ ->. apply IH. exists a, b. reflexivity.
    + exists a, b. exact H.
Qed.

Lemma contains_rev p s : contains p s -> contains (rev p) (rev s).
Proof.
  intros [a [b ->]]. exists (rev b), (rev a).
  rewrite !rev_app_distr, app_assoc. reflexivity.
Qed.

Lemma contains_trimEnd p s c u :
  p = u ++ [c] -> is_white c = false ->
  contains p s -> contains p (trimEnd s).
Proof.
  intros Hp Hc H. unfold trimEnd.
  rewrite <- (rev_involutive p). apply contains_rev.
  apply (contains_trimStart (rev p) (rev s) c (rev u)); auto.
  - rewrite Hp, rev_app_distr. reflexivity.
  - apply contains_rev, H.
Qed.

(** A non-empty text without whitespace at its ends is still there after
    [trim]. *)
Lemma contains_trim p s :
  p <> [] -> tight p -> contains p s -> contains p (trim s).
Proof.
  intros N [Th Tl] H. unfold trim.
  destruct (exists_last N) as (u & c & Hp).
  destruct p as [|d v]; [congruence|].
  eapply contains_trimEnd; eauto.
  eapply contains_trimStart; eauto.
Qed.

Lemma contains_app_l p s t : contains p s -> contains p (s ++ t).
Proof.
  intros [a [b ->]]. exists a, (b ++ t). rewrite <- !app_assoc. reflexivity.
Qed.

Lemma contains_app_r p s t : contains p t -> contains p (s ++ t).
Proof.
  intros [a [b ->]]. exists (s ++ a), b. rewrite <- !app_assoc. reflexivity.
Qed.

End Occurrences.

(** ** The markers *)

Lemma think_open_tight : tight think_open.
Proof.
  split; intros c u H.
  - injection H as <- _. reflexivity.
  - apply (f_equal (@rev _)) in H. rewrite rev_app_distr in H.
    injection H as <- _. reflexivity.
Qed.

Lemma think_close_tight : tight think_close.
Proof.
  split; intros c u H.
  - injection H as <- _. reflexivity.
  - apply (f_equal (@rev _)) in H. rewrite rev_app_distr in H.
    injection H as <- _. reflexivity.
Qed.

(** [replace] with the empty replacement strips the first occurrence. *)
Lemma replace_stripped p s : stripped_of p s (replace p [] s).
Proof.
  unfold replace. destruct (indexOf p s) as [k|] eqn:E.
  - left. exists (firstn k s), (skipn (k + length p) s). split.
    + apply indexOf_first_split, E.
    + reflexivity.
  - right. split; [apply indexOf_none, E | reflexivity].
Qed.

Lemma replace_absent p s : ~ contains p s -> replace p [] s = s.
Proof.
  intros H. unfold replace. destruct (indexOf p s) as [k|] eqn:E; [|reflexivity].
  exfalso. apply H. apply includes_contains. unfold includes. rewrite E.
  reflexivity.
Qed.

(** ** The three branches of the segmenter *)

Lemma parse_closed content k :
  indexOf think_close content = Some k ->
  parseMessageContent content
  = {| thinking := trim (replace think_open [] (firstn k content));
       finalResponse := trim (skipn (k + length think_close) content);
       isComplete := true |}.
Proof.
  intros E. unfold parseMessageContent, includes. rewrite E.
  assert (Hc : think_close = 60%N :: lit "/think>") by reflexivity.
  rewrite Hc in *.
  rewrite (split_found _ _ _ _ E). cbn [hd tl].
  rewrite join_split. reflexivity.
Qed.

Lemma parse_open_only content :
  includes think_close content = false ->
  includes think_open content = true ->
  parseMessageContent content
  = {| thinking := trim (replace think_open [] content);
       finalResponse := [];
       isComplete := false |}.
Proof.
  intros H1 H2. unfold parseMessageContent. rewrite H1, H2. reflexivity.
Qed.

Lemma parse_plain content :
  includes think_close content = false ->
  includes think_open content = false ->
  parseMessageContent content
  = {| thinking := []; finalResponse := content; isComplete := true |}.
Proof.
  intros H1 H2. unfold parseMessageContent. rewrite H1, H2. reflexivity.
Qed.

Lemma contains_indexOf p s : contains p s -> exists k, indexOf p s = Some k.
Proof.
  intros H. apply includes_contains in H. unfold includes in H.
  destruct (indexOf p s) as [k|]; [eauto | discriminate].
Qed.

(** C1.  When the end marker is present, the content is cut at its first
    occurrence: [thinking] is the text before it, with the start marker
    stripped if present, trimmed of surrounding whitespace; [finalResponse]
    is the whole text after it, trimmed, so that a later occurrence of the
    end marker is still inside it; and [isComplete] is true. *)
Theorem segment_end_marker content :
  contains think_close content ->
  exists pre post th,
    first_split think_close content pre post /\
    stripped_of think_open pre th /\
    isComplete (parseMessageContent content) = true /\
    trimmed_of th (thinking (parseMessageContent content)) /\
    trimmed_of post (finalResponse (parseMessageContent content)) /\
    (contains think_close post ->
     contains think_close (finalResponse (parseMessageContent content))).
Proof.
  intros H. destruct (contains_indexOf _ _ H) as [k E].
  exists (firstn k content), (skipn (k + length think_close) content),
         (replace think_open [] (firstn k content)).
  rewrite (parse_closed _ _ E). cbn [thinking finalResponse isComplete].
  repeat split.
  - apply indexOf_cut, E.
  - apply indexOf_first_split, E.
  - apply replace_stripped.
  - apply trim_trimmed.
  - apply trim_trimmed.
  - apply contains_trim; [discriminate | apply think_close_tight].
Qed.

Lemma segment_end_marker_witness :
  contains think_close (lit "<think> a </think> b </think> c ") /\
  exists pre post th,
    first_split think_close (lit "<think> a </think> b </think> c ") pre post /\
    stripped_of think_open pre th /\
    isComplete (parseMessageContent (lit "<think> a </think> b </think> c "))
    = true /\
    trimmed_of th
      (thinking (parseMessageContent (lit "<think> a </think> b </think> c "))) /\
    trimmed_of post
      (finalResponse
         (parseMessageContent (lit "<think> a </think> b </think> c "))) /\
    (contains think_close post ->
     contains think_close
       (finalResponse
          (parseMessageContent (lit "<think> a </think> b </think> c ")))).
Proof.
  assert (H : contains think_close (lit "<think> a </think> b </think> c "))
    by (exists (lit "<think> a "), (lit " b </think> c "); reflexivity).
  split; [exact H | exact (segment_end_marker _ H)].
Defined.

Example segment_two_end_markers :
  parseMessageContent (lit "<think> a </think> b </think> c ")
  = {| thinking := lit "a"; finalResponse := lit "b </think> c";
       isComplete := true |}.
Proof. reflexivity. Qed.

(** C3.  Without either marker the content passes through untouched:
    [thinking] is empty, [finalResponse] is the input itself, neither trimmed
    nor changed, and [isComplete] is true; the empty string gives three
    empty or true fields. *)
Theorem segment_no_markers :
  (forall content,
     ~ contains think_open content -> ~ contains think_close content ->
     parseMessageContent content
     = {| thinking := []; finalResponse := content; isComplete := true |})
  /\ parseMessageContent []
     = {| thinking := []; finalResponse := []; isComplete := true |}.
Proof.
  split; [|reflexivity].
  intros content Ho Hc. apply parse_plain; apply includes_false; assumption.
Qed.

Lemma segment_no_markers_witness :
  ~ contains think_open (lit "  plain <thin k> text ") /\
  ~ contains think_close (lit "  plain <thin k> text ") /\
  parseMessageContent (lit "  plain <thin k> text ")
  = {| thinking := []; finalResponse := lit "  plain <thin k> text ";
       isComplete := true |}.
Proof.
  assert (Ho : ~ contains think_open (lit "  plain <thin k> text "))
    by (apply includes_false; reflexivity).
  assert (Hc : ~ contains think_close (lit "  plain <thin k> text "))
    by (apply includes_false; reflexivity).
  split; [exact Ho|]. split; [exact Hc|].
  exact (proj1 segment_no_markers _ Ho Hc).
Defined.

(** C4.  With the start marker but no end marker the stream is still
    reasoning: [isComplete] is false, [finalResponse] is empty, and
    [thinking] is the content with the start marker (its first occurrence)
    cut out, trimmed of surrounding whitespace. *)
Theorem segment_open_only content :
  contains think_open content -> ~ contains think_close content ->
  isComplete (parseMessageContent content) = false /\
  finalResponse (parseMessageContent content) = [] /\
  exists a b,
    first_split think_open content a b /\
    trimmed_of (a ++ b) (thinking (parseMessageContent content)).
Proof.
  intros Ho Hc.
  rewrite parse_open_only
    by (try apply includes_false; try apply includes_contains; assumption).
  cbn [thinking finalResponse isComplete]. repeat split.
  destruct (contains_indexOf _ _ Ho) as [k E].
  exists (firstn k content), (skipn (k + length think_open) content).
  split; [apply indexOf_first_split, E|].
  unfold replace. rewrite E. apply trim_trimmed.
Qed.

Lemma segment_open_only_witness :
  contains think_open (lit "<think>Let me check ") /\
  ~ contains think_close (lit "<think>Let me check ") /\
  isComplete (parseMessageContent (lit "<think>Let me check ")) = false /\
  finalResponse (parseMessageContent (lit "<think>Let me check ")) = [] /\
  exists a b,
    first_split think_open (lit "<think>Let me check ") a b /\
    trimmed_of (a ++ b)
      (thinking (parseMessageContent (lit "<think>Let me check "))).
Proof.
  assert (Ho : contains think_open (lit "<think>Let me check "))
    by (exists [], (lit "Let me check "); reflexivity).
  assert (Hc : ~ contains think_close (lit "<think>Let me check "))
    by (apply includes_false; reflexivity).
  split; [exact Ho|]. split; [exact Hc|].
  exact (segment_open_only _ Ho Hc).
Defined.

Example segment_streaming_chunk_3 :
  parseMessageContent (lit "<think>Let me check the data</think>The answer is 42")
  = {| thinking := lit "Let me check the data";
       finalResponse := lit "The answer is 42"; isComplete := true |}.
Proof. reflexivity. Qed.

Example segment_streaming_chunk_1 :
  parseMessageContent (lit "<think>Let me check")
  = {| thinking := lit "Let me check"; finalResponse := [];
       isComplete := false |}.
Proof. reflexivity. Qed.

(** C5.  Completeness does not revert while the buffer grows: once the
    content holds the closing marker it is complete, and so is every
    extension of it. *)
Theorem segment_complete_monotone s :
  contains think_close s ->
  isComplete (parseMessageContent s) = true /\
  forall t, isComplete (parseMessageContent (s ++ t)) = true.
Proof.
  intros H.
  assert (closed : forall u, contains think_close u ->
                             isComplete (parseMessageContent u) = true).
  { intros u Hu. destruct (contains_indexOf _ _ Hu) as [k E].
    rewrite (parse_closed _ _ E). reflexivity. }
  split; [apply closed, H|].
  intros t. apply closed, contains_app_l, H.
Qed.

Lemma segment_complete_monotone_witness :
  contains think_close (lit "<think>x</think>") /\
  isComplete (parseMessageContent (lit "<think>x</think>")) = true /\
  forall t,
    isComplete (parseMessageContent (lit "<think>x</think>" ++ t)) = true.
Proof.
  assert (H : contains think_close (lit "<think>x</think>"))
    by (exists (lit "<think>x"), []; reflexivity).
  split; [exact H | exact (segment_complete_monotone _ H)].
Defined.

(** Without the closing marker, growth can end completeness; this is why
    the claim is about content that holds the marker. *)
Example segment_plain_then_open :
  isComplete (parseMessageContent (lit "Hi")) = true /\
  isComplete (parseMessageContent (lit "Hi" ++ lit "<think>")) = false.
Proof. split; reflexivity. Qed.

Lemma first_split_after p s pre post a b :
  first_split p s pre post -> s = a ++ b ->
  length pre + length p <= length a ->
  exists a', a = pre ++ p ++ a' /\ post = a' ++ b.
Proof.
  intros [E _] Es L. rewrite E, app_assoc in Es.
  apply app_eq_app in Es. destruct Es as [m [[H1 H2]|[H1 H2]]].
  - assert (m = []) as ->.
    { apply (f_equal (@length _)) in H1. rewrite !length_app in H1.
      destruct m; simpl in H1; [reflexivity | lia]. }
    rewrite app_nil_r in H1. simpl in H2. subst.
    exists []. rewrite !app_nil_r. auto.
  - exists m. subst. rewrite <- app_assoc. auto.
Qed.

(** C10.  A closing marker with no opening marker takes the same branch:
    [isComplete] is true, [thinking] is the text before the first closing
    marker, trimmed, and [finalResponse] the text after it, trimmed.  The
    same holds when the opening marker occurs only after the closing one,
    and then it is still inside [finalResponse]. *)
Theorem segment_close_without_open :
  (forall content,
     contains think_close content -> ~ contains think_open content ->
     exists pre post,
       first_split think_close content pre post /\
       isComplete (parseMessageContent content) = true /\
       trimmed_of pre (thinking (parseMessageContent content)) /\
       trimmed_of post (finalResponse (parseMessageContent content)))
  /\
  (forall content pre post,
     first_split think_close content pre post ->
     contains think_open content ->
     (forall a b, content = a ++ think_open ++ b ->
                  length pre + length think_close <= length a) ->
     isComplete (parseMessageContent content) = true /\
     trimmed_of pre (thinking (parseMessageContent content)) /\
     trimmed_of post (finalResponse (parseMessageContent content)) /\
     contains think_open (finalResponse (parseMessageContent content))).
Proof.
  assert (core : forall content pre post,
    first_split think_close content pre post ->
    ~ contains think_open pre ->
    parseMessageContent content
    = {| thinking := trim pre; finalResponse := trim post;
         isComplete := true |}).
  { intros content pre post F N.
    assert (Hc : contains think_close content)
      by (destruct F as [-> _]; eexists _, _; reflexivity).
    destruct (contains_indexOf _ _ Hc) as [k E].
    destruct (first_split_unique _ _ _ _ _ _ F (indexOf_first_split _ _ _ E))
      as [-> ->].
    rewrite (parse_closed _ _ E), replace_absent by assumption. reflexivity. }
  split.
  - intros content Hc Ho. destruct (contains_indexOf _ _ Hc) as [k E].
    pose proof (indexOf_first_split _ _ _ E) as F.
    eexists _, _. split; [exact F|].
    rewrite (core _ _ _ F).
    + cbn [thinking finalResponse isComplete].
      repeat split; apply trim_trimmed.
    + intros Hp. apply Ho. destruct F as [F _]. rewrite F.
      apply contains_app_l, Hp.
  - intros content pre post F [a [b Ho]] Late.
    assert (N : ~ contains think_open pre).
    { intros [x [y Hp]]. pose proof F as [Ec _].
      rewrite Hp, <- !app_assoc in Ec. apply Late in Ec.
      rewrite Hp, !length_app in Ec. simpl in Ec. lia. }
    rewrite (core _ _ _ F N). cbn [thinking finalResponse isComplete].
    repeat split; try apply trim_trimmed.
    apply contains_trim; [discriminate | apply think_open_tight |].
    destruct (first_split_after _ _ _ _ _ _ F Ho (Late _ _ Ho)) as (a' & _ & ->).
    eexists _, _. reflexivity.
Qed.

Lemma segment_close_without_open_witness :
  (contains think_close (lit " a </think> b ") /\
   ~ contains think_open (lit " a </think> b ") /\
   exists pre post,
     first_split think_close (lit " a </think> b ") pre post /\
     isComplete (parseMessageContent (lit " a </think> b ")) = true /\
     trimmed_of pre (thinking (parseMessageContent (lit " a </think> b "))) /\
     trimmed_of post
       (finalResponse (parseMessageContent (lit " a </think> b "))))
  /\
  (first_split think_close (lit "a</think>b<think>c") (lit "a")
     (lit "b<think>c") /\
   contains think_open (lit "a</think>b<think>c") /\
   contains think_open
     (finalResponse (parseMessageContent (lit "a</think>b<think>c")))).
Proof.
  split.
  - assert (Hc : contains think_close (lit " a </think> b "))
      by (exists (lit " a "), (lit " b "); reflexivity).
    assert (Ho : ~ contains think_open (lit " a </think> b "))
      by (apply includes_false; reflexivity).
    split; [exact Hc|]. split; [exact Ho|].
    exact (proj1 segment_close_without_open _ Hc Ho).
  - assert (F : first_split think_close (lit "a</think>b<think>c") (lit "a")
                  (lit "b<think>c")).
    { replace (lit "a") with (firstn 1 (lit "a</think>b<think>c"))
        by reflexivity.
      replace (lit "b<think>c")
        with (skipn (1 + length think_close) (lit "a</think>b<think>c"))
        by reflexivity.
      apply indexOf_first_split. reflexivity. }
    assert (Ho : contains think_open (lit "a</think>b<think>c"))
      by (exists (lit "a</think>b"), (lit "c"); reflexivity).
    split; [exact F|]. split; [exact Ho|].
    refine (proj2 (proj2 (proj2
      (proj2 segment_close_without_open _ _ _ F Ho _)))).
    intros a b Hs.
    assert (L : 10 <= length a)
      by exact (indexOf_least think_open (lit "a</think>b<think>c") 10
                  eq_refl a b Hs).
    simpl in *. lia.
Defined.

Example segment_open_after_close :
  parseMessageContent (lit "a</think>b<think>c")
  = {| thinking := lit "a"; finalResponse := lit "b<think>c";
       isComplete := true |}.
Proof. reflexivity. Qed.

(** ** The query history *)

Section HistoryFacts.

Import History.

Lemma slice_last3 {A} (a : list A) : slice (-3) a = skipn (length a - 3) a.
Proof.
  unfold slice. change (-3 <? 0)%Z with true. cbv iota zeta. f_equal. lia.
Qed.

Lemma append_length h q : length (append h q) <= 3.
Proof.
  unfold append. rewrite slice_last3, length_skipn. lia.
Qed.

Lemma window_length h : length (window h) <= 3.
Proof.
  unfold window. rewrite slice_last3, length_skipn. lia.
Qed.

Lemma window_suffix h : firstn (length h - 3) h ++ window h = h.
Proof.
  unfold window. rewrite slice_last3. apply firstn_skipn.
Qed.

Lemma reachable_length h : reachable h -> length h <= 3.
Proof.
  induction 1; [simpl; lia | apply append_length].
Qed.

Lemma append_full h q : length h = 3 -> append h q = tl h ++ [q].
Proof.
  destruct h as [|a [|b [|c [|d h]]]]; simpl; try discriminate.
  reflexivity.
Qed.

Lemma append_room h q : length h < 3 -> append h q = h ++ [q].
Proof.
  intros H. unfold append. rewrite slice_last3, length_app. simpl.
  replace (length h + 1 - 3) with 0 by lia. reflexivity.
Qed.

End HistoryFacts.

(** ** The submit handler *)

Import Page.

(** Runs the handler symbolically, down to the answers of the search
    endpoint. *)
Ltac run_submit :=
  cbv [submit handleSubmit handleSubmitIn try_catch_finally bind ret throw
       perform modify fetch json handleChatSubmit setIsSearching
       setSearchResults setSearchError setPreviousQueries setMessages
       state effects isSearching searchResults searchError previousQueries
       messages input fst snd app].

Section Submit.

Variable env : Env.

Implicit Types s : PageState.

Lemma submit_blank s :
  truthy (trim (input s)) = false ->
  submit env s = (Returned tt, {| state := s; effects := [PreventDefault] |}).
Proof.
  intros H. destruct s. run_submit. simpl in H. rewrite H. reflexivity.
Qed.

Lemma submit_failed s err :
  truthy (trim (input s)) = true -> search_fails env s err ->
  submit env s
  = (Returned tt,
     {| state := {| isSearching := false; searchResults := [];
                    searchError := Some (error_message err);
                    previousQueries := previousQueries s;
                    messages := messages s; input := input s |};
        effects := [PreventDefault;
                    SearchRequest (input s)
                      (History.window (previousQueries s));
                    ConsoleError err] |}).
Proof.
  intros H F. destruct s. unfold search_fails in F. simpl in *.
  run_submit. rewrite H. simpl negb. cbv iota. destruct F as [F | [body [F ->]]]; rewrite F; reflexivity.
Qed.

Lemma submit_succeeded s results :
  truthy (trim (input s)) = true -> search_returns env s results ->
  submit env s
  = (Returned tt,
     {| state :=
          {| isSearching := false; searchResults := results;
             searchError := None;
             previousQueries :=
               History.append (previousQueries s) (input s);
             messages :=
               if truthy (searchContext results)
               then messages s
                    ++ [{| id := toString (dateNow env); role := system;
                           content := searchContext results |}]
               else messages s;
             input := input s |};
        effects :=
          [PreventDefault;
           SearchRequest (input s) (History.window (previousQueries s));
           ChatSubmit
             (if truthy (searchContext results)
              then messages s
                   ++ [{| id := toString (dateNow env); role := system;
                          content := searchContext results |}]
              else messages s)
             (input s)] |}).
Proof.
  intros H F. destruct s. unfold search_returns in F. simpl in *.
  run_submit. rewrite H. simpl negb. cbv iota. rewrite F. cbv iota beta.
  destruct (truthy (searchContext results)); reflexivity.
Qed.

End Submit.

(** C9.  A blank input (empty, or whitespace only) makes the handler return
    at once: the hooks are exactly as before, so search results, error,
    loading flag, history and conversation are unchanged, and the only call
    made is [preventDefault]: no search request and no model request. *)
Theorem submit_blank_noop env s :
  forallb is_white (input s) = true ->
  submit env s = (Returned tt, {| state := s; effects := [PreventDefault] |})
  /\ (forall q p, ~ In (SearchRequest q p) (effects (snd (submit env s))))
  /\ (forall c i, ~ In (ChatSubmit c i) (effects (snd (submit env s))))
  /\ messages (state (snd (submit env s))) = messages s
  /\ searchResults (state (snd (submit env s))) = searchResults s
  /\ searchError (state (snd (submit env s))) = searchError s
  /\ isSearching (state (snd (submit env s))) = isSearching s
  /\ previousQueries (state (snd (submit env s))) = previousQueries s.
Proof.
  intros H.
  assert (E : submit env s
              = (Returned tt, {| state := s; effects := [PreventDefault] |})).
  { apply submit_blank. unfold trim.
    rewrite trimStart_all_white by assumption. reflexivity. }
  rewrite E. simpl. repeat split; auto.
  - intros q p [?|[]]; discriminate.
  - intros c i [?|[]]; discriminate.
Qed.

Lemma submit_blank_noop_witness :
  let env := {| exawebsearch := fun _ _ => FetchResponse true (JsonResults []);
                dateNow := 0 |} in
  let s := {| isSearching := false; searchResults := [];
              searchError := Some (lit "Search failed");
              previousQueries := [lit "first"]; messages := [];
              input := lit "   " |} in
  forallb is_white (input s) = true /\
  submit env s = (Returned tt, {| state := s; effects := [PreventDefault] |}).
Proof.
  intros env s. split; [reflexivity|].
  exact (proj1 (submit_blank_noop env s eq_refl)).
Defined.

(** C2.  When the search request fails, by a rejected transport or by a
    response that is not a success, the handler records the error message,
    makes no model request, leaves conversation and query history as they
    were (so no system message is injected) and clears the loading flag. *)
Theorem submit_search_failure env s err :
  truthy (trim (input s)) = true ->
  search_fails env s err ->
  searchError (state (snd (submit env s))) = Some (error_message err)
  /\ (forall c i, ~ In (ChatSubmit c i) (effects (snd (submit env s))))
  /\ messages (state (snd (submit env s))) = messages s
  /\ previousQueries (state (snd (submit env s))) = previousQueries s
  /\ isSearching (state (snd (submit env s))) = false.
Proof.
  intros H F. rewrite (submit_failed env s err H F). simpl.
  repeat split; auto.
  intros c i [?|[?|[?|[]]]]; discriminate.
Qed.

Lemma submit_search_failure_witness :
  let env := {| exawebsearch := fun _ _ => FetchResponse false (JsonResults []);
                dateNow := 0 |} in
  let s := {| isSearching := false; searchResults := [];
              searchError := None;
              previousQueries := [lit "first"];
              messages := [{| id := lit "1"; role := user;
                              content := lit "first" |}];
              input := lit "weather today" |} in
  truthy (trim (input s)) = true /\
  search_fails env s (ErrorObject (lit "Search failed")) /\
  searchError (state (snd (submit env s))) = Some (lit "Search failed") /\
  messages (state (snd (submit env s))) = messages s /\
  previousQueries (state (snd (submit env s))) = previousQueries s /\
  isSearching (state (snd (submit env s))) = false.
Proof.
  intros env s.
  assert (H : truthy (trim (input s)) = true) by reflexivity.
  assert (F : search_fails env s (ErrorObject (lit "Search failed")))
    by (right; exists (JsonResults []); split; reflexivity).
  pose proof (submit_search_failure env s _ H F) as (E & _ & M & Q & L).
  repeat split; assumption.
Defined.

(** A rejected transport records the message of the error it rejects with. *)
Example submit_transport_error :
  let env := {| exawebsearch :=
                  fun _ _ => FetchRejects (ErrorObject (lit "Failed to fetch"));
                dateNow := 0 |} in
  let s := {| isSearching := false; searchResults := []; searchError := None;
              previousQueries := []; messages := [];
              input := lit "weather today" |} in
  submit env s
  = (Returned tt,
     {| state := {| isSearching := false; searchResults := [];
                    searchError := Some (lit "Failed to fetch");
                    previousQueries := []; messages := [];
                    input := lit "weather today" |};
        effects := [PreventDefault; SearchRequest (lit "weather today") [];
                    ConsoleError (ErrorObject (lit "Failed to fetch"))] |}).
Proof. reflexivity. Qed.

(** C6.  A successful search with no results formats to the empty text, and
    the handler then makes the model request over the conversation as it
    was: no system message is appended. *)
Theorem submit_empty_results env s :
  truthy (trim (input s)) = true ->
  search_returns env s [] ->
  searchContext [] = []
  /\ effects (snd (submit env s))
     = [PreventDefault;
        SearchRequest (input s) (History.window (previousQueries s));
        ChatSubmit (messages s) (input s)]
  /\ messages (state (snd (submit env s))) = messages s.
Proof.
  intros H F. rewrite (submit_succeeded env s [] H F). simpl. auto.
Qed.

Lemma submit_empty_results_witness :
  let env := {| exawebsearch := fun _ _ => FetchResponse true (JsonResults []);
                dateNow := 0 |} in
  let s := {| isSearching := false; searchResults := [];
              searchError := None; previousQueries := [];
              messages := [{| id := lit "1"; role := user;
                              content := lit "first" |}];
              input := lit "weather today" |} in
  truthy (trim (input s)) = true /\
  search_returns env s [] /\
  effects (snd (submit env s))
  = [PreventDefault; SearchRequest (lit "weather today") [];
     ChatSubmit (messages s) (lit "weather today")] /\
  messages (state (snd (submit env s))) = messages s.
Proof.
  intros env s.
  assert (H : truthy (trim (input s)) = true) by reflexivity.
  assert (F : search_returns env s []) by reflexivity.
  pose proof (submit_empty_results env s H F) as (_ & E & M).
  repeat split; assumption.
Defined.

(** What the handler does to the query history and what it sends, whatever
    the search endpoint answers. *)
Lemma submit_history env s :
  (previousQueries (state (snd (submit env s))) = previousQueries s
   \/ previousQueries (state (snd (submit env s)))
      = History.append (previousQueries s) (input s))
  /\ forall q p, In (SearchRequest q p) (effects (snd (submit env s))) ->
                 q = input s /\ p = History.window (previousQueries s).
Proof.
  destruct (truthy (trim (input s))) eqn:H.
  - destruct (exawebsearch env (input s)
                (History.window (previousQueries s))) as [err|ok body] eqn:F.
    + rewrite (submit_failed env s err H (or_introl F)). simpl. split; auto.
      intros q p [?|[E|[?|[]]]]; try discriminate. injection E; auto.
    + destruct ok.
      * destruct body as [results|err].
        -- rewrite (submit_succeeded env s results H F). simpl. split; auto.
           intros q p [?|[E|[?|[]]]]; try discriminate. injection E; auto.
        -- destruct s. simpl in *. revert F. run_submit.
           rewrite H. simpl negb. cbv iota.
           intros ->. simpl. split; auto.
           intros q p [?|[E|[?|[]]]]; try discriminate. injection E; auto.
      * rewrite (submit_failed env s (ErrorObject (lit "Search failed")) H).
        -- simpl. split; auto.
           intros q p [?|[E|[?|[]]]]; try discriminate. injection E; auto.
        -- right. eauto.
  - rewrite (submit_blank env s H). simpl. split; auto.
    intros q p [?|[]]. discriminate.
Qed.

(** C8.  The query history never holds more than three entries: every
    append yields at most three, so every history the page can reach has at
    most three; an append to a full history drops the oldest entry and adds
    the new one at the end; four appends from the empty history leave the
    last three; and the window read for the search request is the last
    three entries at most, which is what every search request carries. *)
Theorem query_history_capacity :
  (forall h q, length (History.append h q) <= 3)
  /\ (forall h, History.reachable h -> length h <= 3)
  /\ (forall h q, length h = 3 -> History.append h q = tl h ++ [q])
  /\ (forall a b c d,
        History.append
          (History.append (History.append (History.append [] a) b) c) d
        = [b; c; d])
  /\ (forall h, length (History.window h) <= 3
                /\ exists older, h = older ++ History.window h)
  /\ (forall env s q p,
        In (SearchRequest q p) (effects (snd (submit env s))) ->
        p = History.window (previousQueries s) /\ length p <= 3)
  /\ (forall env s,
        History.reachable (previousQueries s) ->
        History.reachable (previousQueries (state (snd (submit env s))))).
Proof.
  repeat split.
  - apply append_length.
  - apply reachable_length.
  - apply append_full.
  - apply window_length.
  - exists (firstn (length h - 3) h). symmetry. apply window_suffix.
  - apply (submit_history env s) in H. tauto.
  - apply (submit_history env s) in H as [_ ->]. apply window_length.
  - intros env s R. destruct (submit_history env s) as [[-> | ->] _].
    + exact R.
    + constructor. exact R.
Qed.

Lemma query_history_capacity_witness :
  length [lit "a"; lit "b"; lit "c"] = 3 /\
  History.reachable [lit "a"; lit "b"; lit "c"] /\
  History.append [lit "a"; lit "b"; lit "c"] (lit "d")
  = [lit "b"; lit "c"; lit "d"] /\
  length (History.append [lit "a"; lit "b"; lit "c"] (lit "d")) <= 3.
Proof.
  assert (R : History.reachable [lit "a"; lit "b"; lit "c"]).
  { exact (History.reach_append _ (lit "c")
             (History.reach_append _ (lit "b")
                (History.reach_append _ (lit "a") History.reach_init))). }
  destruct query_history_capacity as (Hlen & Hreach & Hfull & _).
  split; [reflexivity|]. split; [exact R|]. split.
  - exact (Hfull [lit "a"; lit "b"; lit "c"] (lit "d") eq_refl).
  - exact (Hlen _ _).
Defined.

Example history_four_appends :
  History.append
    (History.append (History.append (History.append [] (lit "a")) (lit "b"))
       (lit "c")) (lit "d")
  = [lit "b"; lit "c"; lit "d"].
Proof. reflexivity. Qed.

(** ** The search context *)

Lemma map_index_length {A B} (f : A -> nat -> B) k a :
  length (map_index f k a) = length a.
Proof.
  revert k; induction a as [|x a IH]; intros k; simpl; auto.
Qed.

Lemma map_index_nth {A B} (f : A -> nat -> B) k a n x :
  nth_error a n = Some x ->
  nth_error (map_index f k a) n = Some (f x (k + n)).
Proof.
  revert k n; induction a as [|y a IH]; intros k [|n]; simpl; try discriminate.
  - intros [= ->]. rewrite Nat.add_0_r. reflexivity.
  - intros H. rewrite (IH (S k) n H). f_equal. f_equal. lia.
Qed.

(** C7.  For a non-empty result list the context is the header, the blocks
    joined by blank lines, and the instruction; there is one block per
    result; the block at position [i] (counting from 1) is labelled [i] and
    shows the fields of [results[i-1]], whatever optional fields it has;
    the author line is there exactly when [author] is a non-empty string and
    the date line exactly when [publishedDate] is. *)
Theorem search_context_citations results :
  results <> [] ->
  exists blocks,
    searchContext results
    = lit "Web Search Results:" ++ nl ++ nl
      ++ join (nl ++ nl) blocks ++ nl ++ nl ++ instructions
    /\ length blocks = length results
    /\ forall i r,
         1 <= i -> nth_error results (i - 1) = Some r ->
         nth_error blocks (i - 1)
         = Some (lit "Source [" ++ toString (N.of_nat i) ++ lit "]:" ++ nl
                 ++ lit "Title: " ++ title r ++ nl
                 ++ lit "URL: " ++ url r ++ nl
                 ++ match author r with
                    | Some (c :: a) => lit "Author: " ++ (c :: a) ++ nl
                    | _ => []
                    end
                 ++ match publishedDate r with
                    | Some (c :: d) => lit "Date: " ++ (c :: d) ++ nl
                    | _ => []
                    end
                 ++ lit "Content: " ++ text r ++ nl ++ lit "---").
Proof.
  intros N. exists (map_index sourceBlock 0 results). repeat split.
  - unfold searchContext. destruct results; [congruence | reflexivity].
  - apply map_index_length.
  - intros i r Hi Hr. rewrite (map_index_nth _ _ _ _ _ Hr).
    unfold sourceBlock. replace (0 + (i - 1) + 1) with i by lia.
    destruct r as [t u x [[|c a]|] [[|e d]|]]; reflexivity.
Qed.

Lemma search_context_citations_witness :
  let r1 := {| title := lit "Rain"; url := lit "https://a.example";
               text := lit "Wet."; author := Some (lit "Ann");
               publishedDate := None |} in
  let r2 := {| title := lit "Sun"; url := lit "https://b.example";
               text := lit "Dry."; author := Some [];
               publishedDate := Some (lit "2024-05-01") |} in
  [r1; r2] <> [] /\
  exists blocks,
    searchContext [r1; r2]
    = lit "Web Search Results:" ++ nl ++ nl
      ++ join (nl ++ nl) blocks ++ nl ++ nl ++ instructions
    /\ length blocks = 2
    /\ nth_error blocks 1
       = Some (lit "Source [2]:" ++ nl ++ lit "Title: Sun" ++ nl
               ++ lit "URL: https://b.example" ++ nl
               ++ lit "Date: 2024-05-01" ++ nl
               ++ lit "Content: Dry." ++ nl ++ lit "---").
Proof.
  intros r1 r2.
  assert (N : [r1; r2] <> []) by discriminate.
  split; [exact N|].
  destruct (search_context_citations [r1; r2] N) as (blocks & E & L & B).
  exists blocks. split; [exact E|]. split; [exact L|].
  exact (B 2 r2 (le_S 1 1 (le_n 1)) eq_refl).
Defined.

Example search_context_two_results :
  searchContext
    [{| title := lit "Rain"; url := lit "u1"; text := lit "Wet.";
        author := Some (lit "Ann"); publishedDate := None |};
     {| title := lit "Sun"; url := lit "u2"; text := lit "Dry.";
        author := None; publishedDate := Some (lit "2024") |}]
  = lit "Web Search Results:" ++ nl ++ nl
    ++ lit "Source [1]:" ++ nl ++ lit "Title: Rain" ++ nl
    ++ lit "URL: u1" ++ nl ++ lit "Author: Ann" ++ nl
    ++ lit "Content: Wet." ++ nl ++ lit "---" ++ nl ++ nl
    ++ lit "Source [2]:" ++ nl ++ lit "Title: Sun" ++ nl
    ++ lit "URL: u2" ++ nl ++ lit "Date: 2024" ++ nl
    ++ lit "Content: Dry." ++ nl ++ lit "---" ++ nl ++ nl ++ instructions.
Proof. reflexivity. Qed.

(** * Further properties of the page *)

(** ** The segmenter on a growing buffer *)

Lemma tight_nil : tight [].
Proof.
  split; intros c u H; [discriminate | destruct u; discriminate].
Qed.

Lemma trim_tight s : tight (trim s).
Proof.
  destruct (trim_trimmed s) as (l & r & _ & _ & _ & T). exact T.
Qed.

(** An occurrence that ends inside [s] is an occurrence in [s]. *)
Lemma occurrence_inside (p s t a b : list N) :
  s ++ t = a ++ p ++ b -> length a + length p <= length s ->
  exists b', s = a ++ p ++ b'.
Proof.
  intros E L. rewrite app_assoc in E. apply app_eq_app in E.
  destruct E as [m [[H1 H2]|[H1 H2]]].
  - exists m. rewrite H1, <- app_assoc. reflexivity.
  - assert (m = []) as ->.
    { apply (f_equal (@length _)) in H1. rewrite !length_app in H1.
      destruct m; simpl in H1; [reflexivity | lia]. }
    exists []. rewrite app_nil_r in *. exact (eq_sym H1).
Qed.

(** The first occurrence stays the first one when text is appended. *)
Lemma first_split_app p s pre post t :
  first_split p s pre post -> first_split p (s ++ t) pre (post ++ t).
Proof.
  intros [E Least]. split.
  - rewrite E, <- !app_assoc. reflexivity.
  - intros a b H. destruct (Nat.le_gt_cases (length pre) (length a)); auto.
    destruct (occurrence_inside p s t a b H) as [b' Hs].
    + rewrite E, !length_app. lia.
    + apply Least in Hs. exact Hs.
Qed.

Lemma parse_first_split content pre post :
  first_split think_close content pre post ->
  parseMessageContent content
  = {| thinking := trim (replace think_open [] pre);
       finalResponse := trim post;
       isComplete := true |}.
Proof.
  intros F.
  assert (Hc : contains think_close content)
    by (destruct F as [-> _]; eexists _, _; reflexivity).
  destruct (contains_indexOf _ _ Hc) as [k E].
  destruct (first_split_unique _ _ _ _ _ _ F (indexOf_first_split _ _ _ E))
    as [-> ->].
  apply parse_closed, E.
Qed.

(** The stream is reported incomplete exactly when the content holds the
    opening marker and not the closing one. *)
Lemma segment_incomplete_iff content :
  isComplete (parseMessageContent content) = false
  <-> contains think_open content /\ ~ contains think_close content.
Proof.
  rewrite <- includes_contains, <- includes_false.
  unfold parseMessageContent.
  destruct (includes think_close content), (includes think_open content);
    simpl; split; try tauto; try discriminate; intros [? ?]; discriminate.
Qed.

(** X1.  As soon as either marker is present, neither region starts or ends
    with whitespace. *)
Theorem segment_regions_tight content :
  contains think_open content \/ contains think_close content ->
  tight (thinking (parseMessageContent content))
  /\ tight (finalResponse (parseMessageContent content)).
Proof.
  intros H. unfold parseMessageContent.
  destruct (includes think_close content) eqn:Hc.
  - split; apply trim_tight.
  - destruct (includes think_open content) eqn:Ho.
    + split; [apply trim_tight | apply tight_nil].
    + exfalso. apply includes_false in Hc, Ho. tauto.
Qed.

Lemma segment_regions_tight_witness :
  (contains think_open (lit " <think> a ")
   \/ contains think_close (lit " <think> a ")) /\
  tight (thinking (parseMessageContent (lit " <think> a "))) /\
  tight (finalResponse (parseMessageContent (lit " <think> a "))).
Proof.
  assert (H : contains think_open (lit " <think> a ")
              \/ contains think_close (lit " <think> a "))
    by (left; exists (lit " "), (lit " a "); reflexivity).
  split; [exact H | exact (segment_regions_tight _ H)].
Defined.

(** X2.  Once the closing marker has arrived, text appended to the buffer
    no longer changes [thinking]; it only extends what [finalResponse] is
    the trimming of. *)
Theorem segment_thinking_frozen s pre post t :
  first_split think_close s pre post ->
  thinking (parseMessageContent (s ++ t)) = thinking (parseMessageContent s)
  /\ finalResponse (parseMessageContent (s ++ t)) = trim (post ++ t).
Proof.
  intros F.
  rewrite (parse_first_split _ _ _ (first_split_app _ _ _ _ t F)).
  rewrite (parse_first_split _ _ _ F). split; reflexivity.
Qed.

Lemma segment_thinking_frozen_witness :
  first_split think_close (lit "<think>x</think>The ") (lit "<think>x")
    (lit "The ") /\
  thinking (parseMessageContent (lit "<think>x</think>The " ++ lit "answer"))
  = thinking (parseMessageContent (lit "<think>x</think>The ")) /\
  finalResponse
    (parseMessageContent (lit "<think>x</think>The " ++ lit "answer"))
  = trim (lit "The " ++ lit "answer").
Proof.
  assert (F : first_split think_close (lit "<think>x</think>The ")
                (lit "<think>x") (lit "The "))
    by exact (indexOf_first_split think_close (lit "<think>x</think>The ") 8
                eq_refl).
  split; [exact F | exact (segment_thinking_frozen _ _ _ (lit "answer") F)].
Defined.

(** ** What is drawn for an assistant message *)

Import Render.

(** X3.  While the stream is incomplete the reasoning region is drawn and
    the answer region is not; for content without markers the reasoning
    region is never drawn and the answer region is drawn unless the content
    is empty; and the answer region is never drawn for an incomplete
    stream. *)
Theorem assistant_regions :
  (forall content,
     contains think_open content -> ~ contains think_close content ->
     showThinking content = true /\ showFinal content = false)
  /\ (forall content,
        ~ contains think_open content -> ~ contains think_close content ->
        showThinking content = false
        /\ (showFinal content = true <-> content <> []))
  /\ (forall content,
        showFinal content = true ->
        isComplete (parseMessageContent content) = true
        /\ finalResponse (parseMessageContent content) <> []).
Proof.
  split; [|split].
  - intros content Ho Hc. unfold showThinking, showFinal.
    rewrite parse_open_only
      by (try apply includes_false; try apply includes_contains; assumption).
    simpl. rewrite orb_true_r. auto.
  - intros content Ho Hc. unfold showThinking, showFinal.
    rewrite parse_plain by (apply includes_false; assumption). simpl.
    split; [reflexivity|].
    destruct content; simpl; split; intros; congruence.
  - intros content H. unfold showFinal in H.
    apply andb_true_iff in H as [Hc Hf]. split; [exact Hc|].
    intros E. rewrite E in Hf. discriminate.
Qed.

Lemma assistant_regions_witness :
  contains think_open (lit "<think>Let me check") /\
  ~ contains think_close (lit "<think>Let me check") /\
  showThinking (lit "<think>Let me check") = true /\
  showFinal (lit "<think>Let me check") = false.
Proof.
  assert (Ho : contains think_open (lit "<think>Let me check"))
    by (exists [], (lit "Let me check"); reflexivity).
  assert (Hc : ~ contains think_close (lit "<think>Let me check"))
    by (apply includes_false; reflexivity).
  split; [exact Ho|]. split; [exact Hc|].
  exact (proj1 assistant_regions _ Ho Hc).
Defined.

(** ** The query history over many turns *)

Lemma append_is_suffix h q :
  History.append h q = skipn (length h - 2) (h ++ [q]).
Proof.
  unfold History.append. rewrite slice_last3, length_app. simpl.
  f_equal. lia.
Qed.

(** X4.  After any sequence of appends from the empty history, the history
    holds exactly the last three queries of the sequence, in order (all of
    them when there are fewer than three). *)
Theorem history_last_three qs :
  fold_left History.append qs [] = skipn (length qs - 3) qs.
Proof.
  induction qs as [|q qs IH] using rev_ind; [reflexivity|].
  rewrite fold_left_app. simpl. rewrite IH, append_is_suffix.
  rewrite length_skipn, length_app. simpl.
  assert (B : length qs - 3 <= length qs) by lia.
  replace (skipn (length qs - 3) qs ++ [q])
    with (skipn (length qs - 3) (qs ++ [q])).
  - rewrite skipn_skipn. f_equal. lia.
  - rewrite skipn_app. f_equal.
    replace (length qs - 3 - length qs) with 0 by lia. reflexivity.
Qed.

(** X5.  An append yields the smaller of three and one more than before,
    keeps the new query as the last entry, and keeps the entries before it in
    their order: the result is a suffix of the old history followed by the
    new query. *)
Theorem history_append_shape h q :
  length (History.append h q) = Nat.min 3 (length h + 1)
  /\ History.append h q = skipn (length h - 2) h ++ [q].
Proof.
  rewrite append_is_suffix. split.
  - rewrite length_skipn, length_app. cbn [length]. lia.
  - rewrite skipn_app. f_equal.
    replace (length h - 2 - length h) with 0 by lia. reflexivity.
Qed.

(** X6.  On every history the page can reach, the window sent to the
    search endpoint is the whole history: the bound of the read never cuts
    anything. *)
Theorem history_window_whole h : History.reachable h -> History.window h = h.
Proof.
  intros R. apply reachable_length in R.
  unfold History.window. rewrite slice_last3.
  replace (length h - 3) with 0 by lia. reflexivity.
Qed.

Lemma history_window_whole_witness :
  History.reachable (History.append [] (lit "weather today")) /\
  History.window (History.append [] (lit "weather today"))
  = History.append [] (lit "weather today").
Proof.
  assert (R : History.reachable (History.append [] (lit "weather today")))
    by exact (History.reach_append [] (lit "weather today")
                History.reach_init).
  split; [exact R | exact (history_window_whole _ R)].
Defined.

(** ** Citation numbers *)

Lemma digits_cut d1 d2 x y :
  digits d1 ++ 93%N :: x = digits d2 ++ 93%N :: y -> d1 = d2.
Proof.
  revert d2; induction d1; intros d2; destruct d2; simpl;
    try discriminate; try reflexivity;
    intros H; injection H as H; f_equal; eauto.
Qed.

Lemma toString_cut a b x y :
  toString a ++ 93%N :: x = toString b ++ 93%N :: y -> a = b.
Proof.
  unfold toString. intros H. apply digits_cut in H.
  apply Unsigned.to_uint_inj, H.
Qed.

(** X7.  Two blocks of the search context that carry different positions
    are different texts, whatever the results in them: a citation number
    identifies one position. *)
Theorem sourceBlock_position r r' i j :
  sourceBlock r i = sourceBlock r' j -> i = j.
Proof.
  unfold sourceBlock. intros H. apply app_inv_head in H.
  change (lit "]:") with (93%N :: lit ":") in H. simpl app in H.
  apply toString_cut in H. lia.
Qed.

Lemma sourceBlock_position_witness :
  let r := {| title := lit "Rain"; url := lit "u"; text := lit "Wet.";
              author := None; publishedDate := None |} in
  sourceBlock r 4 = sourceBlock r 4 /\ 4 = 4.
Proof.
  intros r. split; [reflexivity|].
  exact (sourceBlock_position r r 4 4 eq_refl).
Defined.

(** The context text is non-empty exactly when there is at least one
    result, so the test [if (searchContext)] is the test for results. *)
Lemma searchContext_truthy results :
  truthy (searchContext results) = true <-> results <> [].
Proof.
  unfold searchContext. destruct results; simpl; split; congruence.
Qed.

(** X8.  The result list drawn under a user message numbers its entries
    like the search context numbers its blocks: at position [i] (from 1)
    the entry reads [[i] title] and the block starts with [Source [i]:],
    both for [results[i-1]]. *)
Theorem result_list_numbers results i r :
  1 <= i -> nth_error results (i - 1) = Some r ->
  nth_error (resultEntries results) (i - 1)
  = Some (lit "[" ++ toString (N.of_nat i) ++ lit "] " ++ title r)
  /\ exists rest,
       nth_error (map_index sourceBlock 0 results) (i - 1)
       = Some (lit "Source [" ++ toString (N.of_nat i) ++ lit "]:" ++ rest).
Proof.
  intros Hi Hr. unfold resultEntries.
  rewrite !(map_index_nth _ _ _ _ _ Hr).
  unfold resultEntry, sourceBlock.
  replace (0 + (i - 1) + 1) with i by lia.
  split; [reflexivity|]. eexists. reflexivity.
Qed.

Lemma result_list_numbers_witness :
  let r1 := {| title := lit "Rain"; url := lit "u1"; text := lit "Wet.";
               author := None; publishedDate := None |} in
  let r2 := {| title := lit "Sun"; url := lit "u2"; text := lit "Dry.";
               author := None; publishedDate := None |} in
  1 <= 2 /\ nth_error [r1; r2] (2 - 1) = Some r2 /\
  nth_error (resultEntries [r1; r2]) (2 - 1) = Some (lit "[2] Sun").
Proof.
  intros r1 r2. split; [exact (le_S 1 1 (le_n 1))|]. split; [reflexivity|].
  exact (proj1 (result_list_numbers [r1; r2] 2 r2
                  (le_S 1 1 (le_n 1)) eq_refl)).
Defined.

(** ** Every way a turn can end *)

Lemma submit_json_rejected env s err :
  truthy (trim (input s)) = true ->
  exawebsearch env (input s) (History.window (previousQueries s))
  = FetchResponse true (JsonRejects err) ->
  submit env s = (Returned tt, Turn.failed s err).
Proof.
  intros H F. destruct s. simpl in *. unfold Turn.failed.
  run_submit. rewrite H. simpl negb. cbv iota. rewrite F. reflexivity.
Qed.

(** A turn is a no-op, a failure or a success, and a failure is a turn
    whose search was not answered with results. *)
Lemma submit_cases env s :
  (truthy (trim (input s)) = false
   /\ submit env s
      = (Returned tt, {| state := s; effects := [PreventDefault] |}))
  \/ (truthy (trim (input s)) = true /\ ~ Turn.search_ok env s
      /\ exists err, submit env s = (Returned tt, Turn.failed s err))
  \/ (truthy (trim (input s)) = true
      /\ exists results,
           search_returns env s results
           /\ submit env s = (Returned tt, Turn.succeeded env s results)).
Proof.
  destruct (truthy (trim (input s))) eqn:H.
  - right.
    destruct (exawebsearch env (input s)
                (History.window (previousQueries s))) as [err|ok body] eqn:F.
    + left. repeat split.
      * intros [results R]. unfold search_returns in R. congruence.
      * exists err. apply (submit_failed env s err H). left. exact F.
    + destruct ok.
      * destruct body as [results|err].
        -- right. split; [reflexivity|]. exists results. split; [exact F|].
           apply (submit_succeeded env s results H F).
        -- left. repeat split.
           ++ intros [results R]. unfold search_returns in R. congruence.
           ++ exists err. apply submit_json_rejected; assumption.
      * left. repeat split.
        -- intros [results R]. unfold search_returns in R. congruence.
        -- exists (ErrorObject (lit "Search failed")).
           apply (submit_failed env s _ H). right. eauto.
  - left. split; [reflexivity|]. apply submit_blank, H.
Qed.

(** X9.  No exception leaves the handler: whatever the search endpoint
    does, the handler returns normally. *)
Theorem submit_never_throws env s : fst (submit env s) = Returned tt.
Proof.
  destruct (submit_cases env s)
    as [[_ E] | [(_ & _ & err & E) | (_ & results & _ & E)]];
    rewrite E; reflexivity.
Qed.

(** X10.  A model request is made exactly when the input is not blank and
    the search is answered with results (possibly none). *)
Theorem submit_model_request_iff env s :
  (exists c i, In (ChatSubmit c i) (effects (snd (submit env s))))
  <-> truthy (trim (input s)) = true /\ Turn.search_ok env s.
Proof.
  destruct (submit_cases env s)
    as [[B E] | [(B & N & err & E) | (B & results & R & E)]]; rewrite E.
  - split.
    + intros (c & i & [?|[]]). discriminate.
    + intros [? _]. congruence.
  - split.
    + intros (c & i & [?|[?|[?|[]]]]); discriminate.
    + intros [_ ?]. contradiction.
  - split.
    + intros _. split; [exact B | exists results; exact R].
    + intros _. eexists _, _. simpl. right. right. left. reflexivity.
Qed.

(** X11.  When there are results, the handler appends one system message
    carrying the formatted context at the end of the conversation and makes
    the model request over the conversation with it; it stores the results,
    clears the error and the loading flag and appends the input to the
    history. *)
Theorem submit_with_results env s results :
  truthy (trim (input s)) = true ->
  search_returns env s results ->
  results <> [] ->
  messages (state (snd (submit env s)))
  = messages s ++ [{| id := toString (dateNow env); role := system;
                      content := searchContext results |}]
  /\ effects (snd (submit env s))
     = [PreventDefault;
        SearchRequest (input s) (History.window (previousQueries s));
        ChatSubmit (messages (state (snd (submit env s)))) (input s)]
  /\ searchResults (state (snd (submit env s))) = results
  /\ searchError (state (snd (submit env s))) = None
  /\ isSearching (state (snd (submit env s))) = false
  /\ previousQueries (state (snd (submit env s)))
     = History.append (previousQueries s) (input s).
Proof.
  intros H R N. rewrite (submit_succeeded env s results H R). simpl.
  apply searchContext_truthy in N. rewrite N. repeat split.
Qed.

Lemma submit_with_results_witness :
  let r := {| title := lit "Rain"; url := lit "u1"; text := lit "Wet.";
              author := None; publishedDate := None |} in
  let env := {| exawebsearch :=
                  fun _ _ => FetchResponse true (JsonResults [r]);
                dateNow := 17 |} in
  let s := {| isSearching := false; searchResults := [];
              searchError := Some (lit "Search failed");
              previousQueries := [lit "first"];
              messages := [{| id := lit "1"; role := user;
                              content := lit "first" |}];
              input := lit "weather today" |} in
  truthy (trim (input s)) = true /\ search_returns env s [r] /\ [r] <> [] /\
  messages (state (snd (submit env s)))
  = messages s ++ [{| id := lit "17"; role := system;
                      content := searchContext [r] |}] /\
  searchError (state (snd (submit env s))) = None /\
  previousQueries (state (snd (submit env s)))
  = [lit "first"; lit "weather today"].
Proof.
  intros r env s.
  assert (H : truthy (trim (input s)) = true) by reflexivity.
  assert (R : search_returns env s [r]) by reflexivity.
  assert (N : [r] <> []) by discriminate.
  pose proof (submit_with_results env s [r] H R N) as (M & _ & _ & E & _ & Q).
  repeat split; assumption.
Defined.

(** X12.  A response that is a success but whose body cannot be read is
    handled like a failed search: the error of the body is recorded, the
    results stay cleared, no model request is made, and conversation and
    history are as before. *)
Theorem submit_unreadable_body env s err :
  truthy (trim (input s)) = true ->
  exawebsearch env (input s) (History.window (previousQueries s))
  = FetchResponse true (JsonRejects err) ->
  searchError (state (snd (submit env s))) = Some (error_message err)
  /\ searchResults (state (snd (submit env s))) = []
  /\ effects (snd (submit env s))
     = [PreventDefault;
        SearchRequest (input s) (History.window (previousQueries s));
        ConsoleError err]
  /\ messages (state (snd (submit env s))) = messages s
  /\ previousQueries (state (snd (submit env s))) = previousQueries s
  /\ isSearching (state (snd (submit env s))) = false.
Proof.
  intros H F. rewrite (submit_json_rejected env s err H F). simpl.
  repeat split.
Qed.

Lemma submit_unreadable_body_witness :
  let env := {| exawebsearch :=
                  fun _ _ => FetchResponse true
                               (JsonRejects (ErrorObject (lit "Unexpected token")));
                dateNow := 0 |} in
  let s := {| isSearching := false; searchResults := [];
              searchError := None; previousQueries := [lit "first"];
              messages := []; input := lit "weather today" |} in
  truthy (trim (input s)) = true /\
  exawebsearch env (input s) (History.window (previousQueries s))
  = FetchResponse true (JsonRejects (ErrorObject (lit "Unexpected token"))) /\
  searchError (state (snd (submit env s))) = Some (lit "Unexpected token") /\
  previousQueries (state (snd (submit env s))) = [lit "first"].
Proof.
  intros env s.
  pose proof (submit_unreadable_body env s
                (ErrorObject (lit "Unexpected token")) eq_refl eq_refl)
    as (E & _ & _ & _ & Q & _).
  repeat split; assumption.
Defined.

(** X13.  With a non-blank input the turn does not depend on what the last
    turn left in the loading flag, the results and the error: two states
    with the same input, conversation and history give the same outcome. *)
Theorem submit_resets_turn_state env s s' :
  truthy (trim (input s)) = true ->
  input s' = input s -> messages s' = messages s ->
  previousQueries s' = previousQueries s ->
  submit env s' = submit env s.
Proof.
  intros H Ei Em Eq.
  assert (H' : truthy (trim (input s')) = true) by (rewrite Ei; exact H).
  destruct (exawebsearch env (input s)
              (History.window (previousQueries s))) as [err|ok body] eqn:F.
  - rewrite (submit_failed env s err H (or_introl F)).
    rewrite (submit_failed env s' err H')
      by (left; rewrite Ei, Eq; exact F).
    rewrite Ei, Em, Eq. reflexivity.
  - destruct ok; [destruct body as [results|err]|].
    + rewrite (submit_succeeded env s results H F).
      rewrite (submit_succeeded env s' results H')
        by (unfold search_returns; rewrite Ei, Eq; exact F).
      rewrite Ei, Em, Eq. reflexivity.
    + rewrite (submit_json_rejected env s err H F).
      rewrite (submit_json_rejected env s' err H')
        by (rewrite Ei, Eq; exact F).
      unfold Turn.failed. rewrite Ei, Em, Eq. reflexivity.
    + rewrite (submit_failed env s (ErrorObject (lit "Search failed")) H)
        by (right; eauto).
      rewrite (submit_failed env s' (ErrorObject (lit "Search failed")) H')
        by (right; exists body; rewrite Ei, Eq; auto).
      rewrite Ei, Em, Eq. reflexivity.
Qed.

Lemma submit_resets_turn_state_witness :
  let env := {| exawebsearch := fun _ _ => FetchResponse true (JsonResults []);
                dateNow := 0 |} in
  let s := {| isSearching := false; searchResults := [];
              searchError := None; previousQueries := [];
              messages := []; input := lit "weather today" |} in
  let s' := {| isSearching := true; searchResults := [];
               searchError := Some (lit "Search failed");
               previousQueries := []; messages := [];
               input := lit "weather today" |} in
  truthy (trim (input s)) = true /\ submit env s' = submit env s.
Proof.
  intros env s s'. split; [reflexivity|].
  exact (submit_resets_turn_state env s s' eq_refl eq_refl eq_refl eq_refl).
Defined.

(** ** What is drawn after a turn *)





(** X16.  When the submit button is enabled, a submit makes the search
    request for the input as typed, with the window of the history, right
    after [preventDefault]. *)
Theorem enabled_submit_searches env s :
  submitDisabled s = false ->
  exists rest,
    effects (snd (submit env s))
    = PreventDefault
      :: SearchRequest (input s) (History.window (previousQueries s))
      :: rest.
Proof.
  unfold submitDisabled. intros D. apply orb_false_iff in D as [D _].
  apply negb_false_iff in D.
  destruct (submit_cases env s)
    as [[B _] | [(_ & _ & err & E) | (_ & results & _ & E)]].
  - congruence.
  - rewrite E. eexists. reflexivity.
  - rewrite E. eexists. reflexivity.
Qed.

Lemma enabled_submit_searches_witness :
  let env := {| exawebsearch := fun _ _ => FetchRejects NonError;
                dateNow := 0 |} in
  let s := {| isSearching := false; searchResults := [];
              searchError := None; previousQueries := [lit "first"];
              messages := []; input := lit " weather " |} in
  submitDisabled s = false /\
  exists rest,
    effects (snd (submit env s))
    = PreventDefault :: SearchRequest (lit " weather ") [lit "first"] :: rest.
Proof.
  intros env s. split; [reflexivity|].
  exact (enabled_submit_searches env s eq_refl).
Defined.
